(** * neurocuber: the actor's episode pipeline ([python/actor.py])

    A shallow embedding of [python/actor.py]: the value target
    [Actor._compute_v], the role lookup [get_actor_info], the corpus walk of
    [Actor.__init__], and the episode step [Actor.play_episode] with the
    loop that drives it.

    Modelling conventions.
    - A Python [int] is a [Z]; [/] is the true division of Python 3.
    - A Python [float] is idealised as a real number ([R]): rounding,
      overflow and underflow of binary64 are outside this model, and
      [math.pow] is the real power on the domain where [math.pow] returns,
      raising [ValueError] elsewhere.
    - An exception is a value of [PyExn]; a computation that may raise
      returns a [Res].
    - The collaborators that [actor.py] imports (the solver wrapper, the
      search procedure [play_asat], the DIMACS parser, the policies, the
      remote server and the inference connection) are parameters of the
      sections below. Calls to them are recorded, in order, in a trace. *)

From Stdlib Require Import String Ascii Bool ZArith Reals Lra Lia List Permutation.
Import ListNotations.

(** ** Exceptions and results *)

Inductive PyExn : Type :=
| ZeroDivisionError
| ValueError
| IndexError
| Exception_no_actor_info (idx : Z).

Inductive Res (A : Type) : Type :=
| Ok (a : A)
| Raise (e : PyExn).

Arguments Ok {A} a.
Arguments Raise {A} e.

Definition res_bind {A B : Type} (r : Res A) (k : A -> Res B) : Res B :=
  match r with
  | Ok a => k a
  | Raise e => Raise e
  end.

(** ** The value target: [Actor._compute_v] *)

Module Value.

Local Open Scope R_scope.

(** The three keys of [self.cfg] that [_compute_v] reads. *)
Record Config : Type := mkConfig {
  v_reward : R;
  v_reward_decay : R;
  v_reward_decay_steps : R
}.

(** Python's [x / y] on numbers. *)
Definition truediv (x y : R) : Res R :=
  if Req_dec_T y 0 then Raise ZeroDivisionError else Ok (x / y).

(** [math.pow x y]: the real power; [ValueError] for [0] to a negative
    power and for a negative base with a non-integral exponent. *)
Definition math_pow (x y : R) : Res R :=
  if Rlt_dec 0 x then Ok (Rpower x y)
  else if Req_dec_T x 0 then
    (if Rlt_dec 0 y then Ok 0
     else if Req_dec_T y 0 then Ok 1
     else Raise ValueError)
  else
    (if Req_dec_T (frac_part y) 0 then Ok (powerRZ x (Int_part y))
     else Raise ValueError).

(** [def _compute_v(self, n_steps_left)] *)
Definition _compute_v (cfg : Config) (n_steps_left : Z) : Res R :=
  res_bind (truediv (IZR n_steps_left) (v_reward_decay_steps cfg)) (fun steps =>
  res_bind (math_pow (v_reward_decay cfg) steps) (fun p =>
  Ok (v_reward cfg * p))).




Lemma truediv_zero (x : R) : truediv x 0 = Raise ZeroDivisionError.
Proof.
  unfold truediv. destruct (Req_dec_T 0 0) as [_ | N]; [reflexivity | now destruct N].
Qed.



Lemma compute_v_zero_scale (cfg : Config) (n : Z) :
  v_reward_decay_steps cfg = 0 -> _compute_v cfg n = Raise ZeroDivisionError.
Proof.
  intros E. unfold _compute_v. rewrite E, truediv_zero. reflexivity.
Qed.









End Value.

(** ** Role lookup of the launcher: [get_actor_info] *)

Module Launch.

Local Open Scope Z_scope.

Section Roles.

(** A role descriptor of [actor_cfg['actors']]; the descriptors of the
    policies are opaque here. *)
Variable PolicyInfo : Type.

Record SolverInfo : Type := mkSolverInfo {
  max_conflicts : Z;
  sat_restart_max : Z
}.

Record ActorInfo : Type := mkActorInfo {
  n : Z;
  train : bool;
  dimacs_dir : string;
  solver : SolverInfo;
  cubers : list PolicyInfo;
  branchers : list PolicyInfo
}.

(** [n_actors_total = sum([actor['n'] for actor in actor_cfg['actors']])] *)
Definition n_actors_total (actors : list ActorInfo) : Z :=
  fold_right Z.add 0 (map n actors).

(** The [for] loop of [get_actor_info], entered with the running count [i]. *)
Fixpoint get_actor_info_loop (i : Z) (actors : list ActorInfo) (idx : Z)
    : Res ActorInfo :=
  match actors with
  | [] => Raise (Exception_no_actor_info idx)
  | actor_info :: rest =>
      let i := i + n actor_info in
      if idx <? i then Ok actor_info else get_actor_info_loop i rest idx
  end.

(** [def get_actor_info(idx)] *)
Definition get_actor_info (actors : list ActorInfo) (idx : Z) : Res ActorInfo :=
  get_actor_info_loop 0 actors idx.

(** The cumulative count of the first [k] roles. *)
Definition cumulative (actors : list ActorInfo) (k : nat) : Z :=
  n_actors_total (firstn k actors).

(** The lookup as the specification words it: the first role, in declared
    order, whose cumulative count exceeds [idx]. *)
Definition first_exceeding (actors : list ActorInfo) (idx : Z) : option nat :=
  find (fun k => idx <? cumulative actors (S k)) (seq 0 (length actors)).

Definition lookup_spec (actors : list ActorInfo) (idx : Z) : Res ActorInfo :=
  match first_exceeding actors idx with
  | Some k =>
      match nth_error actors k with
      | Some r => Ok r
      | None => Raise (Exception_no_actor_info idx)
      end
  | None => Raise (Exception_no_actor_info idx)
  end.

Lemma find_map {A B : Type} (f : B -> bool) (g : A -> B) (l : list A) :
  find f (map g l) = option_map g (find (fun x => f (g x)) l).
Proof.
  induction l as [| x l IH]; simpl; [reflexivity |].
  destruct (f (g x)); [reflexivity | exact IH].
Qed.

Lemma find_pointwise {A : Type} (f g : A -> bool) (l : list A) :
  (forall x, f x = g x) -> find f l = find g l.
Proof.
  intros H. induction l as [| x l IH]; simpl; [reflexivity |].
  rewrite H, IH. reflexivity.
Qed.

Lemma cumulative_cons (a : ActorInfo) (actors : list ActorInfo) (k : nat) :
  cumulative (a :: actors) (S k) = n a + cumulative actors k.
Proof. reflexivity. Qed.

(** The loop with its running count against the prefix sums. *)
Lemma get_actor_info_loop_spec (idx : Z) :
  forall (actors : list ActorInfo) (i : Z),
    get_actor_info_loop i actors idx =
    match find (fun k => idx <? i + cumulative actors (S k))
               (seq 0 (List.length actors)) with
    | Some k =>
        match nth_error actors k with
        | Some r => Ok r
        | None => Raise (Exception_no_actor_info idx)
        end
    | None => Raise (Exception_no_actor_info idx)
    end.
Proof.
  induction actors as [| a actors IH]; intros i; [reflexivity |].
  cbn [get_actor_info_loop List.length seq find].
  rewrite cumulative_cons. unfold cumulative at 1. cbn [firstn n_actors_total map fold_right].
  rewrite Z.add_0_r.
  destruct (idx <? i + n a) eqn:E; [reflexivity |].
  rewrite IH, <- seq_shift, find_map.
  rewrite (find_pointwise
             (fun x => idx <? i + cumulative (a :: actors) (S (S x)))
             (fun k => idx <? i + n a + cumulative actors (S k))).
  2:{ intros k. rewrite cumulative_cons. f_equal. lia. }
  destruct (find _ (seq 0 (List.length actors))) as [k |]; reflexivity.
Qed.

Lemma get_actor_info_loop_beyond (idx : Z) :
  forall (actors : list ActorInfo) (i : Z),
    Forall (fun a => 0 <= n a) actors ->
    i + n_actors_total actors <= idx ->
    get_actor_info_loop i actors idx = Raise (Exception_no_actor_info idx).
Proof.
  induction actors as [| a actors IH]; intros i Hnn Hle; [reflexivity |].
  inversion Hnn as [| ? ? Ha Hrest]; subst.
  assert (Htot : 0 <= n_actors_total actors).
  { clear -Hrest. induction Hrest; unfold n_actors_total in *; simpl; lia. }
  unfold n_actors_total in Hle, Htot; simpl in Hle.
  cbn [get_actor_info_loop].
  destruct (idx <? i + n a) eqn:E; [apply Z.ltb_lt in E; lia |].
  apply IH; [exact Hrest | unfold n_actors_total; lia].
Qed.

Lemma get_actor_info_loop_within (idx : Z) :
  forall (actors : list ActorInfo) (i : Z),
    Forall (fun a => 0 <= n a) actors ->
    i <= idx < i + n_actors_total actors ->
    exists k r,
      nth_error actors k = Some r /\
      get_actor_info_loop i actors idx = Ok r /\
      i + cumulative actors k <= idx < i + cumulative actors (S k).
Proof.
  induction actors as [| a actors IH]; intros i Hnn Hin.
  - unfold n_actors_total in Hin; simpl in Hin. lia.
  - inversion Hnn as [| ? ? Ha Hrest]; subst.
    unfold n_actors_total in Hin; simpl in Hin.
    cbn [get_actor_info_loop].
    destruct (idx <? i + n a) eqn:E.
    + apply Z.ltb_lt in E. exists O, a.
      split; [reflexivity |]. split; [reflexivity |].
      rewrite cumulative_cons. unfold cumulative, n_actors_total; simpl. lia.
    + apply Z.ltb_ge in E.
      destruct (IH (i + n a) Hrest) as [k [r [Hk [Hget Hb]]]].
      { unfold n_actors_total. lia. }
      exists (S k), r. split; [exact Hk |]. split; [exact Hget |].
      rewrite !cumulative_cons. lia.
Qed.

(** C9. The lookup walks the roles in declared order adding up their
    counts and returns the first role whose cumulative count exceeds
    [idx]. With counts that are not negative, an index in
    [0 .. total - 1] falls in the bucket of its role, and an index at or
    beyond the total raises. For the counts [3, 2, 5]: 0..2 is role 0,
    3..4 role 1, 5..9 role 2, and 10 or more raises. *)
Theorem get_actor_info_buckets (actors : list ActorInfo) (idx : Z) :
  Forall (fun a => 0 <= n a) actors ->
  get_actor_info actors idx = lookup_spec actors idx /\
  (n_actors_total actors <= idx ->
   get_actor_info actors idx = Raise (Exception_no_actor_info idx)) /\
  (0 <= idx < n_actors_total actors ->
   exists k r,
     nth_error actors k = Some r /\
     get_actor_info actors idx = Ok r /\
     cumulative actors k <= idx < cumulative actors (S k)) /\
  (forall r0 r1 r2,
     actors = [r0; r1; r2] -> n r0 = 3 -> n r1 = 2 -> n r2 = 5 ->
     (0 <= idx <= 2 -> get_actor_info actors idx = Ok r0) /\
     (3 <= idx <= 4 -> get_actor_info actors idx = Ok r1) /\
     (5 <= idx <= 9 -> get_actor_info actors idx = Ok r2) /\
     (10 <= idx -> get_actor_info actors idx = Raise (Exception_no_actor_info idx))).
Proof.
  intros Hnn. split.
  { unfold get_actor_info, lookup_spec, first_exceeding.
    rewrite get_actor_info_loop_spec. reflexivity. }
  split.
  { intros Hle. apply get_actor_info_loop_beyond; [exact Hnn | lia]. }
  split.
  { intros Hin.
    destruct (get_actor_info_loop_within idx actors 0 Hnn) as [k [r [Hk [Hget Hb]]]];
      [lia |].
    exists k, r. split; [exact Hk |]. split; [exact Hget | lia]. }
  intros r0 r1 r2 -> H0 H1 H2.
  unfold get_actor_info. cbn [get_actor_info_loop]. rewrite H0, H1, H2.
  repeat split; intros Hidx;
    repeat match goal with
           | |- context [idx <? ?c] =>
               let E := fresh "E" in
               destruct (idx <? c) eqn:E;
               [apply Z.ltb_lt in E | apply Z.ltb_ge in E]
           end; try reflexivity; lia.
Qed.

(** *** The launcher: lines 111 to 135 *)

(** The keys of [actor_cfg] the launcher reads. *)
Record ActorCfg : Type := mkActorCfg {
  actors : list ActorInfo;
  n_gpus : Z;
  gpu_frac : R
}.

(** [range(n)] *)
Definition range (k : Z) : list Z := map Z.of_nat (seq 0 (Z.to_nat k)).


(** [gpu_id = actor_idx % actor_cfg['n_gpus'] if actor_cfg['n_gpus'] > 0 else 0] *)
Definition gpu_id (actor_cfg : ActorCfg) (actor_idx : Z) : Z :=
  if n_gpus actor_cfg >? 0 then actor_idx mod n_gpus actor_cfg else 0.

(** The roles the workers of [for actor_idx in range(n_actors_total)] look
    up, in the order they are started. *)
Definition launched_roles (actor_cfg : ActorCfg) : list (Res ActorInfo) :=
  map (get_actor_info (actors actor_cfg))
    (range (n_actors_total (actors actor_cfg))).

(** The workers started on accelerator [g]. *)
Definition workers_on (actor_cfg : ActorCfg) (g : Z) : list Z :=
  filter (fun actor_idx => gpu_id actor_cfg actor_idx =? g)
    (range (n_actors_total (actors actor_cfg))).

Definition zrange (a : Z) (len : nat) : list Z :=
  map (fun k => a + Z.of_nat k) (seq 0 len).

Lemma range_zrange (k : Z) : range k = zrange 0 (Z.to_nat k).
Proof. unfold range, zrange. apply map_ext. intros a. lia. Qed.

Lemma seq_add_map (k len s : nat) :
  seq (k + s) len = map (fun x => (k + x)%nat) (seq s len).
Proof.
  revert s; induction len as [| len IH]; intros s; simpl; [reflexivity |].
  f_equal. rewrite <- IH. f_equal. lia.
Qed.

Lemma zrange_app (a : Z) (n1 n2 : nat) :
  zrange a (n1 + n2) = zrange a n1 ++ zrange (a + Z.of_nat n1) n2.
Proof.
  unfold zrange. rewrite seq_app, map_app. f_equal.
  rewrite <- (Nat.add_0_r n1) at 1. rewrite Nat.add_0_l.
  rewrite <- (Nat.add_0_r n1) at 1. rewrite seq_add_map, map_map.
  apply map_ext. intros k. lia.
Qed.

Lemma in_zrange (a : Z) (len : nat) (x : Z) :
  In x (zrange a len) -> a <= x < a + Z.of_nat len.
Proof.
  unfold zrange. intros H. apply in_map_iff in H. destruct H as [k [<- Hk]].
  apply in_seq in Hk. lia.
Qed.

Lemma n_actors_total_nonneg (l : list ActorInfo) :
  Forall (fun a => 0 <= n a) l -> 0 <= n_actors_total l.
Proof. induction 1; unfold n_actors_total in *; simpl; lia. Qed.

Lemma launched_roles_from (actors0 : list ActorInfo) :
  forall i : Z,
    Forall (fun a => 0 <= n a) actors0 ->
    map (get_actor_info_loop i actors0)
      (zrange i (Z.to_nat (n_actors_total actors0)))
    = flat_map (fun a => repeat (Ok a) (Z.to_nat (n a))) actors0.
Proof.
  induction actors0 as [| a rest IH]; intros i Hnn; [reflexivity |].
  inversion Hnn as [| ? ? Ha Hrest]; subst.
  pose proof (n_actors_total_nonneg rest Hrest) as Htot.
  change (n_actors_total (a :: rest)) with (n a + n_actors_total rest).
  rewrite Z2Nat.inj_add by assumption.
  rewrite zrange_app, map_app. cbn [flat_map]. f_equal.
  - rewrite (map_ext_in _ (fun _ => Ok a)).
    + clear. induction (Z.to_nat (n a)) as [| k IHk]; [reflexivity |].
      unfold zrange in *. rewrite <- Nat.add_1_r, seq_app, !map_app, IHk.
      simpl. clear. induction k; simpl; [reflexivity | now f_equal].
    + intros x Hx. apply in_zrange in Hx. cbn [get_actor_info_loop].
      destruct (x <? i + n a) eqn:E; [reflexivity |].
      apply Z.ltb_ge in E. lia.
  - rewrite Z2Nat.id by assumption. rewrite <- (IH (i + n a) Hrest).
    apply map_ext_in. intros x Hx. apply in_zrange in Hx.
    cbn [get_actor_info_loop].
    destruct (x <? i + n a) eqn:E; [| reflexivity].
    apply Z.ltb_lt in E. lia.
Qed.

(** X1. With counts that are not negative, the workers started by the
    launcher look up, in order, every role as many times as its count: no
    worker's lookup raises, and each role gets exactly its number of
    workers. *)
Theorem launched_roles_repeat_counts (actor_cfg : ActorCfg) :
  Forall (fun a => 0 <= n a) (actors actor_cfg) ->
  launched_roles actor_cfg
  = flat_map (fun a => repeat (Ok a) (Z.to_nat (n a))) (actors actor_cfg).
Proof.
  intros Hnn. unfold launched_roles, get_actor_info. rewrite range_zrange.
  now apply launched_roles_from.
Qed.

Lemma range_succ (k : nat) :
  range (Z.of_nat (S k)) = range (Z.of_nat k) ++ [Z.of_nat k].
Proof.
  unfold range. rewrite !Nat2Z.id. rewrite <- Nat.add_1_r, seq_app, map_app.
  reflexivity.
Qed.

Lemma round_robin_step (N G g : Z) :
  0 <= N -> 0 < G -> 0 <= g < G ->
  (N + 1 + G - 1 - g) / G
  = (N + G - 1 - g) / G + (if N mod G =? g then 1 else 0).
Proof.
  intros HN HG Hg.
  pose proof (Z.div_mod N G ltac:(lia)) as Hdm.
  pose proof (Z.mod_pos_bound N G HG) as Hr.
  set (q := N / G) in *. set (r := N mod G) in *.
  replace (N + 1 + G - 1 - g) with ((r + G - g) + q * G) by lia.
  replace (N + G - 1 - g) with ((r + G - 1 - g) + q * G) by lia.
  rewrite !Z.div_add by lia.
  destruct (r =? g) eqn:E.
  - apply Z.eqb_eq in E. subst g.
    replace (r + G - r) with (1 * G) by lia.
    rewrite Z.div_mul by lia.
    rewrite (Z.div_small (r + G - 1 - r) G) by lia. lia.
  - apply Z.eqb_neq in E.
    destruct (Z_lt_le_dec r g) as [Hlt | Hge].
    + rewrite (Z.div_small (r + G - g) G) by lia.
      rewrite (Z.div_small (r + G - 1 - g) G) by lia. lia.
    + replace (r + G - g) with ((r - g) + 1 * G) by lia.
      replace (r + G - 1 - g) with ((r - g - 1) + 1 * G) by lia.
      rewrite !Z.div_add by lia.
      rewrite (Z.div_small (r - g) G) by lia.
      rewrite (Z.div_small (r - g - 1) G) by lia. lia.
Qed.

Lemma workers_on_count (G g : Z) (k : nat) :
  0 < G -> 0 <= g < G ->
  Z.of_nat (List.length (filter (fun idx => idx mod G =? g) (range (Z.of_nat k))))
  = (Z.of_nat k + G - 1 - g) / G.
Proof.
  intros HG Hg. induction k as [| k IH].
  - simpl. rewrite Z.div_small by lia. reflexivity.
  - rewrite range_succ, filter_app, length_app, Nat2Z.inj_add, IH.
    replace (Z.of_nat (S k) + G - 1 - g) with (Z.of_nat k + 1 + G - 1 - g) by lia.
    rewrite round_robin_step by lia.
    f_equal. simpl. destruct (Z.of_nat k mod G =? g); reflexivity.
Qed.

(** X2. The accelerator of a worker is a valid one: with [n_gpus > 0] it
    lies in [0 .. n_gpus - 1] for every index, a negative one included,
    and it is 0 when no accelerator is configured. The workers are dealt
    round robin: accelerator [g] gets [(total + n_gpus - 1 - g) / n_gpus]
    of them, which is [total / n_gpus] or one more. *)
Theorem gpu_round_robin (actor_cfg : ActorCfg) (actor_idx g : Z) :
  (n_gpus actor_cfg <= 0 -> gpu_id actor_cfg actor_idx = 0) /\
  (0 < n_gpus actor_cfg ->
   0 <= gpu_id actor_cfg actor_idx < n_gpus actor_cfg /\
   gpu_id actor_cfg (actor_idx + n_gpus actor_cfg) = gpu_id actor_cfg actor_idx) /\
  (0 < n_gpus actor_cfg -> 0 <= g < n_gpus actor_cfg ->
   0 <= n_actors_total (actors actor_cfg) ->
   let total := n_actors_total (actors actor_cfg) in
   let load := Z.of_nat (List.length (workers_on actor_cfg g)) in
   load = (total + n_gpus actor_cfg - 1 - g) / n_gpus actor_cfg /\
   total / n_gpus actor_cfg <= load <= total / n_gpus actor_cfg + 1).
Proof.
  unfold gpu_id, workers_on. split; [| split].
  - intros H. destruct (n_gpus actor_cfg >? 0) eqn:E; [| reflexivity].
    apply Z.gtb_lt in E. lia.
  - intros H. destruct (n_gpus actor_cfg >? 0) eqn:E.
    2:{ rewrite Z.gtb_ltb in E. apply Z.ltb_ge in E. lia. }
    split; [apply Z.mod_pos_bound; lia |].
    rewrite <- (Z.mul_1_l (n_gpus actor_cfg)) at 1.
    apply Z.mod_add. lia.
  - intros HG Hg Htot.
    set (total := n_actors_total (actors actor_cfg)) in *.
    rewrite (filter_ext _ (fun idx => idx mod n_gpus actor_cfg =? g)).
    2:{ intros idx. unfold gpu_id.
        destruct (n_gpus actor_cfg >? 0) eqn:E; [reflexivity |].
        rewrite Z.gtb_ltb in E. apply Z.ltb_ge in E. lia. }
    assert (Hload :
      Z.of_nat (List.length (filter (fun idx => idx mod n_gpus actor_cfg =? g)
                               (range total)))
      = (total + n_gpus actor_cfg - 1 - g) / n_gpus actor_cfg).
    { rewrite <- (Z2Nat.id total) by assumption.
      rewrite workers_on_count by lia. reflexivity. }
    rewrite Hload.
    split; [reflexivity |].
    split.
    + apply Z.div_le_mono; lia.
    + replace (total / n_gpus actor_cfg + 1)
        with ((total + 1 * n_gpus actor_cfg) / n_gpus actor_cfg)
        by (rewrite Z.div_add by lia; reflexivity).
      apply Z.div_le_mono; lia.
Qed.


(** X4. With at least one role and counts that are not negative, the
    lookup answers a role exactly for the indices below the total, and
    raises exactly from the total on. A negative index is not rejected: it
    is answered with the first role. *)
Theorem get_actor_info_answers_below_total (r0 : ActorInfo)
    (rest : list ActorInfo) (idx : Z) :
  Forall (fun a => 0 <= n a) (r0 :: rest) ->
  ((exists r, get_actor_info (r0 :: rest) idx = Ok r)
   <-> idx < n_actors_total (r0 :: rest)) /\
  (get_actor_info (r0 :: rest) idx = Raise (Exception_no_actor_info idx)
   <-> n_actors_total (r0 :: rest) <= idx) /\
  (idx < 0 -> get_actor_info (r0 :: rest) idx = Ok r0).
Proof.
  intros Hnn.
  assert (Hneg : idx < 0 -> get_actor_info (r0 :: rest) idx = Ok r0).
  { intros Hidx. inversion Hnn as [| ? ? H0 _]; subst.
    unfold get_actor_info. cbn [get_actor_info_loop].
    destruct (idx <? 0 + n r0) eqn:E; [reflexivity |].
    apply Z.ltb_ge in E. lia. }
  assert (Hbelow : idx < n_actors_total (r0 :: rest) ->
                   exists r, get_actor_info (r0 :: rest) idx = Ok r).
  { intros Hlt. destruct (Z_lt_le_dec idx 0) as [Hn | Hp].
    - exists r0. now apply Hneg.
    - destruct (get_actor_info_loop_within idx (r0 :: rest) 0 Hnn)
        as [k [r [_ [Hget _]]]]; [lia |].
      now exists r. }
  assert (Hbeyond : n_actors_total (r0 :: rest) <= idx ->
                    get_actor_info (r0 :: rest) idx
                    = Raise (Exception_no_actor_info idx)).
  { intros Hle. apply get_actor_info_loop_beyond; [exact Hnn | lia]. }
  split; [| split; [| exact Hneg]].
  - split; [| exact Hbelow].
    intros [r Hr]. destruct (Z_lt_le_dec idx (n_actors_total (r0 :: rest)))
      as [Hlt | Hle]; [exact Hlt |].
    rewrite (Hbeyond Hle) in Hr. discriminate.
  - split; [| exact Hbeyond].
    intros Hraise. destruct (Z_lt_le_dec idx (n_actors_total (r0 :: rest)))
      as [Hlt | Hle]; [| exact Hle].
    destruct (Hbelow Hlt) as [r Hr]. rewrite Hr in Hraise. discriminate.
Qed.

End Roles.

Arguments n {PolicyInfo} a.
Arguments train {PolicyInfo} a.
Arguments dimacs_dir {PolicyInfo} a.
Arguments solver {PolicyInfo} a.
Arguments cubers {PolicyInfo} a.
Arguments branchers {PolicyInfo} a.

End Launch.

(** ** The corpus walk of [Actor.__init__] *)

Module Corpus.

Local Open Scope string_scope.

(** A directory: the names of its files and its named subdirectories, each
    in listing order. *)
#[warnings="-register-all"]
Inductive DirTree : Type :=
| Dir (files : list string) (subdirs : list (string * DirTree)).

Definition startswith_sep (s : string) : bool :=
  match s with
  | String c _ => Ascii.eqb c "/"%char
  | EmptyString => false
  end.

Fixpoint endswith_sep (s : string) : bool :=
  match s with
  | EmptyString => false
  | String c EmptyString => Ascii.eqb c "/"%char
  | String _ rest => endswith_sep rest
  end.

(** [os.path.join(a, b)] (POSIX). *)
Definition os_path_join (a b : string) : string :=
  if startswith_sep b then b
  else if (String.length a =? 0)%nat || endswith_sep a then a ++ b
  else a ++ "/" ++ b.

(** [os.walk(top)], top-down: the triple of [top] first, then the walk of
    each subdirectory in listing order. *)
Fixpoint os_walk (top : string) (d : DirTree)
    : list (string * list string * list string) :=
  match d with
  | Dir files subdirs =>
      (top, map fst subdirs, files)
      :: flat_map (fun entry => os_walk (os_path_join top (fst entry)) (snd entry))
           subdirs
  end.



Section Load.

Variable Problem : Type.
(** [parse_dimacs(path)], from [sat_util]. *)
Variable parse_dimacs : string -> Problem.

(** The two nested [for] loops that fill [self.sps]. *)
Definition load_sps (dimacs_dir : string) (tree : DirTree)
    : list (string * Problem) :=
  flat_map
    (fun entry =>
       let '(root, _, files) := entry in
       map (fun dimacs => (dimacs, parse_dimacs (os_path_join root dimacs))) files)
    (os_walk dimacs_dir tree).

(** An instance is stored under the name its directory lists it by, with
    the parse of the file at the joined path. *)
Lemma in_load_sps (dimacs_dir : string) (tree : DirTree) (id : string)
    (sp : Problem) :
  In (id, sp) (load_sps dimacs_dir tree) <->
  exists root subdirs files,
    In (root, subdirs, files) (os_walk dimacs_dir tree) /\
    In id files /\ sp = parse_dimacs (os_path_join root id).
Proof.
  unfold load_sps. rewrite in_flat_map. split.
  - intros [[[root subdirs] files] [Hwalk Hin]].
    apply in_map_iff in Hin. destruct Hin as [name [Heq Hname]].
    injection Heq as <- <-. now exists root, subdirs, files.
  - intros [root [subdirs [files [Hwalk [Hin ->]]]]].
    exists (root, subdirs, files). split; [exact Hwalk |].
    apply in_map_iff. now exists id.
Qed.

(** *** What the walk loads *)

(** The files of a directory and of everything below it, top-down. *)
Fixpoint all_files (d : DirTree) : list string :=
  match d with
  | Dir files subdirs => files ++ flat_map (fun entry => all_files (snd entry)) subdirs
  end.

(** No name of a file or of a directory in the tree starts with the
    separator: the names a directory listing gives. *)
Fixpoint listing_names (d : DirTree) : Prop :=
  match d with
  | Dir files subdirs =>
      Forall (fun f => startswith_sep f = false) files /\
      (fix below (l : list (string * DirTree)) : Prop :=
         match l with
         | [] => True
         | entry :: l' =>
             startswith_sep (fst entry) = false /\ listing_names (snd entry) /\ below l'
         end) subdirs
  end.

(** Induction on a directory, with the property at hand for every
    subdirectory. *)
Fixpoint DirTree_rect_sub (P : DirTree -> Prop)
    (step : forall files subdirs,
        Forall (fun entry => P (snd entry)) subdirs -> P (Dir files subdirs))
    (d : DirTree) : P d :=
  match d with
  | Dir files subdirs =>
      step files subdirs
        ((fix each (l : list (string * DirTree))
            : Forall (fun entry => P (snd entry)) l :=
            match l with
            | [] => Forall_nil _
            | entry :: l' =>
                Forall_cons entry (DirTree_rect_sub P step (snd entry)) (each l')
            end) subdirs)
  end.

Lemma string_app_assoc (a b c : string) : (a ++ b) ++ c = a ++ (b ++ c).
Proof. induction a as [| x a IH]; simpl; [reflexivity | now rewrite IH]. Qed.

Lemma string_app_nil_r (a : string) : a ++ "" = a.
Proof. induction a as [| x a IH]; simpl; [reflexivity | now rewrite IH]. Qed.

Lemma os_path_join_suffix (a b : string) :
  exists p, os_path_join a b = p ++ b.
Proof.
  unfold os_path_join. destruct (startswith_sep b).
  - now exists "".
  - destruct ((String.length a =? 0)%nat || endswith_sep a).
    + now exists a.
    + exists (a ++ "/"). now rewrite string_app_assoc.
Qed.

Lemma os_path_join_prefix (a b : string) :
  startswith_sep b = false -> exists s, os_path_join a b = a ++ s.
Proof.
  intros Hb. unfold os_path_join. rewrite Hb.
  destruct ((String.length a =? 0)%nat || endswith_sep a).
  - now exists b.
  - now exists ("/" ++ b).
Qed.

(** Every directory the walk visits lies under the directory it started
    from. *)
Lemma os_walk_roots_under (d : DirTree) :
  forall top root subdirs files,
    listing_names d ->
    In (root, subdirs, files) (os_walk top d) ->
    exists s, root = top ++ s.
Proof.
  induction d as [files0 subs IH] using DirTree_rect_sub.
  intros top root subdirs files [_ Hnames] Hin.
  cbn [os_walk] in Hin. destruct Hin as [Heq | Hin].
  - injection Heq as <- _ _. exists "". now rewrite string_app_nil_r.
  - induction subs as [| entry subs IHs]; [contradiction |].
    cbn [flat_map] in Hin. apply in_app_or in Hin.
    inversion IH as [| ? ? Hentry Hrest]; subst.
    destruct Hnames as [Hname [Hsub Hbelow]].
    destruct Hin as [Hin | Hin].
    + destruct (Hentry _ _ _ _ Hsub Hin) as [s Hs].
      destruct (os_path_join_prefix top (fst entry) Hname) as [s' Hs'].
      exists (s' ++ s). rewrite Hs, Hs'. now rewrite string_app_assoc.
    + now apply IHs.
Qed.

Lemma map_fst_load_step (root : string) (files : list string) :
  map fst (map (fun dimacs => (dimacs, parse_dimacs (os_path_join root dimacs))) files)
  = files.
Proof. rewrite map_map. simpl. apply map_id. Qed.

(** X5. The corpus is loaded whole: the identifiers of [self.sps] are
    the names of all files of the directory tree, at every depth, each
    file once, in top-down listing order; no file is filtered out. *)
Theorem load_sps_loads_every_file (dimacs_dir : string) (tree : DirTree) :
  map fst (load_sps dimacs_dir tree) = all_files tree /\
  List.length (load_sps dimacs_dir tree) = List.length (all_files tree).
Proof.
  assert (H : forall d top, map fst (load_sps top d) = all_files d).
  { induction d as [files subs IH] using DirTree_rect_sub. intros top.
    unfold load_sps. cbn [os_walk flat_map all_files].
    rewrite map_app, map_fst_load_step. f_equal.
    induction subs as [| entry subs IHs]; [reflexivity |].
    inversion IH as [| ? ? Hentry Hrest]; subst.
    cbn [flat_map]. rewrite flat_map_app, map_app. f_equal.
    - apply (Hentry (os_path_join top (fst entry))).
    - now apply IHs. }
  split; [apply H |].
  rewrite <- (H tree dimacs_dir). now rewrite length_map.
Qed.

(** X6. With the names a listing gives (none starts with the
    separator), every instance is parsed from a path that begins with
    [dimacs_dir] and ends with the instance's identifier. *)
Theorem load_sps_paths_under_dir (dimacs_dir : string) (tree : DirTree)
    (id : string) (sp : Problem) :
  listing_names tree ->
  In (id, sp) (load_sps dimacs_dir tree) ->
  exists middle,
    sp = parse_dimacs (dimacs_dir ++ middle ++ id) /\
    In id (all_files tree).
Proof.
  intros Hnames Hin.
  assert (Hid : In id (all_files tree)).
  { destruct (load_sps_loads_every_file dimacs_dir tree) as [<- _].
    apply in_map_iff. now exists (id, sp). }
  apply in_load_sps in Hin.
  destruct Hin as [root [subdirs [files [Hwalk [Hfile ->]]]]].
  destruct (os_walk_roots_under tree dimacs_dir root subdirs files Hnames Hwalk)
    as [s ->].
  assert (Hidname : startswith_sep id = false).
  { clear -Hnames Hid. revert Hnames Hid.
    induction tree as [files subs IH] using DirTree_rect_sub.
    intros [Hfiles Hbelow] Hid. cbn [all_files] in Hid.
    apply in_app_or in Hid. destruct Hid as [Hid | Hid].
    - rewrite Forall_forall in Hfiles. now apply Hfiles.
    - induction subs as [| entry subs IHs]; [contradiction |].
      inversion IH as [| ? ? Hentry Hrest]; subst.
      destruct Hbelow as [_ [Hsub Hbelow]].
      cbn [flat_map] in Hid. apply in_app_or in Hid. destruct Hid as [Hid | Hid].
      + now apply Hentry.
      + now apply IHs. }
  unfold os_path_join. rewrite Hidname.
  destruct ((String.length (dimacs_dir ++ s) =? 0)%nat || endswith_sep (dimacs_dir ++ s)).
  - exists s. split; [| exact Hid]. now rewrite string_app_assoc.
  - exists (s ++ "/"). split; [| exact Hid].
    now rewrite !string_app_assoc.
Qed.

End Load.

End Corpus.

(** ** The episode step and the actor's loop *)

Module Episode.

Import Value.

(** [Z3Options(max_conflicts=..., sat_restart_max=...)] *)
Record Z3Options : Type := mkZ3Options {
  opt_max_conflicts : Z;
  opt_sat_restart_max : Z
}.

(** What [to_tf_query] answers, as far as [play_episode] reads it.
    Modelled from the spec: the free-variable set and the constraint-index
    mapping of a structured query; [sat_util] and [neuroquery] are not
    among the sources. *)
Record TFQuery : Type := mkTFQuery {
  fvars : list Z;
  LC_idxs : list (Z * Z)
}.

(** [NeuroSATDatapoint(n_vars, n_clauses, LC_idxs, target_var, target_v)] *)
Record NeuroSATDatapoint : Type := mkDatapoint {
  dp_n_vars : Z;
  dp_n_clauses : Z;
  dp_LC_idxs : list (Z * Z);
  target_var : Z;
  target_v : R
}.

Section Collaborators.

(** The imported collaborators. *)
Variables Lit Problem Solver Cuber Brancher Weights Estimate ServerState : Type.

(** [lit == lit'], as [lit in core] tests it. *)
Variable Lit_eq_dec : forall a b : Lit, {a = b} + {a <> b}.
(** [lit.var().idx()] *)
Variable var_idx : Lit -> Z.
(** [sp.n_vars()] and [sp.n_clauses()] *)
Variable n_vars : Problem -> Z.
Variable n_clauses : Problem -> Z.
(** [Z3Solver(sp=sp, opts=opts)]: the state of a newly built solver. *)
Variable Z3Solver : Problem -> Z3Options -> Solver.
(** [s.to_tf_query(assumptions=...)]: the answer and the solver's state
    after the call. *)
Variable to_tf_query : Solver -> list Lit -> TFQuery * Solver.
(** [play_asat(solver, cuber, brancher)]; the policies score through the
    inference connection, so the outcome depends on the weights it holds. *)
Variable play_asat :
  Solver -> Cuber -> Brancher -> Weights -> option (list Lit * list Lit * Estimate).
Variable cuber_name : Cuber -> string.
Variable brancher_name : Brancher -> string.
(** [server.get_weights()] and [server.process_actor_episode(report)] *)
Variable server_get_weights : ServerState -> Weights.
Variable server_process_actor_episode :
  ServerState -> string * string * string * Estimate * list NeuroSATDatapoint -> ServerState.
(** [server.get_config()], [parse_dimacs(path)], and the policy factories
    [mk_cuber] and [mk_brancher] over the role's policy descriptors. *)
Variable server_get_config : ServerState -> Config.
Variable parse_dimacs : string -> Problem.
Variable PolicyInfo : Type.
Variable mk_cuber : PolicyInfo -> Cuber.
Variable mk_brancher : PolicyInfo -> Brancher.

(** [ActorEpisodeResult], turned into a plain tuple before it is sent. *)
Record ActorEpisodeResult : Type := mkResult {
  dimacs : string;
  cuber : string;
  brancher : string;
  estimate : Estimate;
  datapoints : list NeuroSATDatapoint
}.

Definition tuple (r : ActorEpisodeResult)
    : string * string * string * Estimate * list NeuroSATDatapoint :=
  (dimacs r, cuber r, brancher r, estimate r, datapoints r).

(** The calls [play_episode] makes on its collaborators. A solver is named
    by its rank among the solvers built so far. *)
Inductive Event : Type :=
| E_get_weights
| E_set_weights (w : Weights)
| E_Z3Solver (id : nat) (sp : Problem)
| E_play_asat (id : nat) (c : Cuber) (b : Brancher)
| E_to_tf_query (id : nat) (assumptions : list Lit)
| E_process_actor_episode
    (report : string * string * string * Estimate * list NeuroSATDatapoint).

(** The state an episode runs in: the weights the inference connection
    holds, the server, the number of solvers built, and the calls made. *)
Record World : Type := mkWorld {
  neuroquery : Weights;
  server : ServerState;
  n_solvers : nat;
  trace : list Event
}.

(** [self], after [__init__]. *)
Record Actor : Type := mkActor {
  cfg : Config;
  cubers : list Cuber;
  branchers : list Brancher;
  sps : list (string * Problem);
  train : bool;
  z3opts : Z3Options
}.

(** [def __init__(self, server, gpu_id, gpu_frac, actor_info)], with [tree]
    the directory found at [actor_info['dimacs_dir']]. The accelerator
    arguments and the [dropout_training] override only reach the inference
    connection. *)
Definition __init__ (srv : ServerState) (actor_info : Launch.ActorInfo PolicyInfo)
    (tree : Corpus.DirTree) : Actor :=
  {| cfg := server_get_config srv;
     cubers := map mk_cuber (Launch.cubers actor_info);
     branchers := map mk_brancher (Launch.branchers actor_info);
     sps := Corpus.load_sps Problem parse_dimacs (Launch.dimacs_dir actor_info) tree;
     train := Launch.train actor_info;
     z3opts :=
       mkZ3Options (Launch.max_conflicts (Launch.solver actor_info))
         (Launch.sat_restart_max (Launch.solver actor_info)) |}.

(** Computations on the world that may raise. *)
Definition M (A : Type) : Type := World -> Res A * World.

Definition ret {A : Type} (a : A) : M A := fun w => (Ok a, w).

Definition bind {A B : Type} (m : M A) (k : A -> M B) : M B :=
  fun w =>
    match m w with
    | (Ok a, w') => k a w'
    | (Raise e, w') => (Raise e, w')
    end.

Definition lift {A : Type} (r : Res A) : M A := fun w => (r, w).

Notation "x <- m ;; k" := (bind m (fun x => k))
  (at level 61, m at next level, right associativity).
Notation "m ;;; k" := (bind m (fun _ => k))
  (at level 61, right associativity).

Definition log (e : Event) (w : World) : World :=
  {| neuroquery := neuroquery w; server := server w;
     n_solvers := n_solvers w; trace := trace w ++ [e] |}.

Definition log_all (es : list Event) (w : World) : World :=
  {| neuroquery := neuroquery w; server := server w;
     n_solvers := n_solvers w; trace := trace w ++ es |}.

(** [self.server.get_weights()] *)
Definition get_weights : M Weights :=
  fun w => (Ok (server_get_weights (server w)), log E_get_weights w).

(** [self.neuroquery.set_weights(ws)] *)
Definition set_weights (ws : Weights) : M unit :=
  fun w =>
    (Ok tt,
     {| neuroquery := ws; server := server w;
        n_solvers := n_solvers w; trace := trace w ++ [E_set_weights ws] |}).

(** [def _fresh_solver(self, sp)]: a new solver object, with its name. *)
Definition solver_built (sp : Problem) (w : World) : World :=
  {| neuroquery := neuroquery w; server := server w;
     n_solvers := S (n_solvers w);
     trace := trace w ++ [E_Z3Solver (n_solvers w) sp] |}.

Definition _fresh_solver (self : Actor) (sp : Problem) : M (nat * Solver) :=
  fun w => (Ok (n_solvers w, Z3Solver sp (z3opts self)), solver_built sp w).

(** [play_asat(s, cuber, brancher)], run on the weights currently loaded. *)
Definition run_play_asat (s : nat * Solver) (c : Cuber) (b : Brancher)
    : M (option (list Lit * list Lit * Estimate)) :=
  fun w => (Ok (play_asat (snd s) c b (neuroquery w)), log (E_play_asat (fst s) c b) w).

(** [s.to_tf_query(assumptions=a)] on the solver object [s]. *)
Definition call_to_tf_query (s : nat * Solver) (a : list Lit)
    : M (TFQuery * (nat * Solver)) :=
  fun w =>
    let '(tfq, st) := to_tf_query (snd s) a in
    (Ok (tfq, (fst s, st)), log (E_to_tf_query (fst s) a) w).

(** [self.server.process_actor_episode(report)] *)
Definition process_actor_episode
    (report : string * string * string * Estimate * list NeuroSATDatapoint) : M unit :=
  fun w =>
    (Ok tt,
     {| neuroquery := neuroquery w;
        server := server_process_actor_episode (server w) report;
        n_solvers := n_solvers w;
        trace := trace w ++ [E_process_actor_episode report] |}).

(** [lit in core] *)
Definition lit_in (lit : Lit) (core : list Lit) : bool :=
  if in_dec Lit_eq_dec lit core then true else false.

(** [[lit for lit in trail if lit in core]] *)
Definition min_trail_of (trail core : list Lit) : list Lit :=
  filter (fun lit => lit_in lit core) trail.

(** [min_trail[i]] *)
Definition getitem (l : list Lit) (i : nat) : Res Lit :=
  match nth_error l i with
  | Some x => Ok x
  | None => Raise IndexError
  end.

(** The body of [for i in range(len(min_trail))], over the indices still to
    visit; [s] is the one solver object the loop queries. *)
Fixpoint gen_loop (self : Actor) (sp : Problem) (min_trail : list Lit)
    (s : nat * Solver) (range : list nat) (dps : list NeuroSATDatapoint)
    : M (list NeuroSATDatapoint) :=
  match range with
  | [] => ret dps
  | i :: range' =>
      q <- call_to_tf_query s (firstn i min_trail) ;;
      let tfq := fst q in
      if (List.length (fvars tfq) =? 0)%nat then ret dps
      else
        lit <- lift (getitem min_trail i) ;;
        v <- lift (_compute_v (cfg self)
                     (Z.of_nat (List.length min_trail) - Z.of_nat i)) ;;
        gen_loop self sp min_trail (snd q) range'
          (dps ++ [mkDatapoint (n_vars sp) (n_clauses sp) (LC_idxs tfq)
                     (var_idx lit) v])
  end.

(** Lines 52 to 63: the training branch of [play_episode]. *)
Definition gen_datapoints (self : Actor) (sp : Problem) (trail core : list Lit)
    : M (list NeuroSATDatapoint) :=
  let min_trail := min_trail_of trail core in
  s <- _fresh_solver self sp ;;
  gen_loop self sp min_trail s (seq 0 (List.length min_trail)) [].

(** [def play_episode(self, dimacs, sp, cuber, brancher)] *)
Definition play_episode (self : Actor) (dimacs_ : string) (sp : Problem)
    (cuber_ : Cuber) (brancher_ : Brancher) : M unit :=
  ws <- get_weights ;;
  set_weights ws ;;;
  s <- _fresh_solver self sp ;;
  ssat_result <- run_play_asat s cuber_ brancher_ ;;
  match ssat_result with
  | None => ret tt
  | Some (trail, core, estimate_) =>
      dps <- (if train self then gen_datapoints self sp trail core else ret []) ;;
      process_actor_episode
        (tuple (mkResult dimacs_ (cuber_name cuber_) (brancher_name brancher_)
                  estimate_ dps))
  end.

(** A [for] loop whose body may raise. *)
Fixpoint for_each {A : Type} (xs : list A) (body : A -> M unit) : M unit :=
  match xs with
  | [] => ret tt
  | x :: xs' => body x ;;; for_each xs' body
  end.




Definition play_triple (self : Actor) (t : string * Problem * Cuber * Brancher)
    : M unit :=
  let '(dimacs_, sp, cuber_, brancher_) := t in
  play_episode self dimacs_ sp cuber_ brancher_.

(** *** What the generation loop is specified against *)

(** The answers of one solver object queried, in order, with the prefix of
    every index of [range]. *)
Fixpoint query_results (st : Solver) (min_trail : list Lit) (range : list nat)
    : list TFQuery :=
  match range with
  | [] => []
  | i :: range' =>
      let q := to_tf_query st (firstn i min_trail) in
      fst q :: query_results (snd q) min_trail range'
  end.

(** The number of leading answers that have a free variable. *)
Fixpoint leading_nonempty (qs : list TFQuery) : nat :=
  match qs with
  | [] => O
  | q :: qs' =>
      if (List.length (fvars q) =? 0)%nat then O else S (leading_nonempty qs')
  end.

(** [dp] is the example of index [i], whose query answered [tfq]. *)
Definition example_for (self : Actor) (sp : Problem) (min_trail : list Lit)
    (i : nat) (tfq : TFQuery) (dp : NeuroSATDatapoint) : Prop :=
  dp_n_vars dp = n_vars sp /\
  dp_n_clauses dp = n_clauses sp /\
  dp_LC_idxs dp = LC_idxs tfq /\
  (exists lit, nth_error min_trail i = Some lit /\ target_var dp = var_idx lit) /\
  _compute_v (cfg self) (Z.of_nat (List.length min_trail) - Z.of_nat i)
  = Ok (target_v dp).

(** The query events of the indices [range] on the solver named [id]. *)
Definition query_events (id : nat) (min_trail : list Lit) (range : list nat)
    : list Event :=
  map (fun i => E_to_tf_query id (firstn i min_trail)) range.

Definition is_pull (e : Event) : bool :=
  match e with E_get_weights => true | _ => false end.

Definition is_push (e : Event) : bool :=
  match e with E_process_actor_episode _ => true | _ => false end.


Definition is_query (e : Event) : bool :=
  match e with E_to_tf_query _ _ => true | _ => false end.

Definition count (p : Event -> bool) (tr : list Event) : nat :=
  List.length (filter p tr).

(** The reports pushed along a trace. *)
Definition reports (tr : list Event)
    : list (string * string * string * Estimate * list NeuroSATDatapoint) :=
  flat_map (fun e => match e with E_process_actor_episode r => [r] | _ => [] end) tr.


(** One list is a subsequence of another: it keeps its order. *)
Inductive Subsequence {A : Type} : list A -> list A -> Prop :=
| Subseq_nil : Subsequence [] []
| Subseq_skip (x : A) (l1 l2 : list A) :
    Subsequence l1 l2 -> Subsequence l1 (x :: l2)
| Subseq_keep (x : A) (l1 l2 : list A) :
    Subsequence l1 l2 -> Subsequence (x :: l1) (x :: l2).



(** *** The world under logging *)

Lemma log_all_nil (w : World) : log_all [] w = w.
Proof. destruct w; unfold log_all; simpl. now rewrite app_nil_r. Qed.

Lemma log_all_log (e : Event) (es : list Event) (w : World) :
  log_all es (log e w) = log_all (e :: es) w.
Proof. unfold log_all, log; simpl. now rewrite <- app_assoc. Qed.

Lemma log_is_log_all (e : Event) (w : World) : log e w = log_all [e] w.
Proof. reflexivity. Qed.

(** *** The generation loop *)

Lemma leading_nonempty_le (qs : list TFQuery) :
  (leading_nonempty qs <= List.length qs)%nat.
Proof.
  induction qs as [| q qs IH]; simpl; [lia |].
  destruct (List.length (fvars q) =? 0)%nat; lia.
Qed.

Lemma query_results_length (st : Solver) (mt : list Lit) (range : list nat) :
  List.length (query_results st mt range) = List.length range.
Proof.
  revert st; induction range as [| i range IH]; intros st; simpl; [reflexivity |].
  now rewrite IH.
Qed.




(** What one run of the loop returns and logs: on a normal return, one
    example for each index before the stop index, in order, behind the
    examples it was entered with; on an exception, the index that raised
    lies before the stop index. *)
Lemma gen_loop_spec (self : Actor) (sp : Problem) (mt : list Lit) :
  forall (range : list nat) (s : nat * Solver) (dps : list NeuroSATDatapoint)
         (w : World),
    let qs := query_results (snd s) mt range in
    let k := leading_nonempty qs in
    match gen_loop self sp mt s range dps w with
    | (Ok out, w') =>
        (exists new, out = dps ++ new /\ List.length new = k /\
           forall j dp, nth_error new j = Some dp ->
             exists i q, nth_error range j = Some i /\ nth_error qs j = Some q /\
                         example_for self sp mt i q dp) /\
        w' = log_all (query_events (fst s) mt (firstn (S k) range)) w
    | (Raise e, w') =>
        (exists i, In i (firstn k range) /\
           (getitem mt i = Raise e \/
            _compute_v (cfg self) (Z.of_nat (List.length mt) - Z.of_nat i) = Raise e)) /\
        (exists m, (m <= k)%nat /\
           w' = log_all (query_events (fst s) mt (firstn m range)) w)
    end.
Proof.
  induction range as [| i range IH]; intros s dps w; simpl.
  - unfold ret. split.
    + exists []. rewrite app_nil_r. repeat split; try reflexivity.
      intros [| j] dp H; discriminate.
    + symmetry; apply log_all_nil.
  - unfold bind at 1. unfold call_to_tf_query.
    destruct (to_tf_query (snd s) (firstn i mt)) as [tfq st'] eqn:Eq. simpl.
    destruct (List.length (fvars tfq) =? 0)%nat eqn:Efv.
    + unfold ret. split.
      * exists []. rewrite app_nil_r. repeat split; try reflexivity.
        intros [| j] dp H; discriminate.
      * simpl. apply log_is_log_all.
    + unfold bind at 1, lift at 1.
      destruct (getitem mt i) as [lit | e] eqn:Eg.
      2:{ split.
          - exists i. split; [simpl; now left | now left].
          - exists 1%nat. split; [lia |]. simpl. apply log_is_log_all. }
      unfold bind at 1, lift at 1.
      destruct (_compute_v (cfg self) (Z.of_nat (List.length mt) - Z.of_nat i))
        as [v | e] eqn:Ev.
      2:{ split.
          - exists i. split; [simpl; now left | now right].
          - exists 1%nat. split; [lia |]. simpl. apply log_is_log_all. }
      specialize (IH (fst s, st')
                     (dps ++ [mkDatapoint (n_vars sp) (n_clauses sp) (LC_idxs tfq)
                                (var_idx lit) v])
                     (log (E_to_tf_query (fst s) (firstn i mt)) w)).
      simpl in IH.
      destruct (gen_loop self sp mt (fst s, st') range _ _) as [[out | e] w'].
      * destruct IH as [[new [Hout [Hlen Hnth]]] Hw]. split.
        -- exists (mkDatapoint (n_vars sp) (n_clauses sp) (LC_idxs tfq) (var_idx lit) v
                   :: new).
           split; [rewrite Hout, <- app_assoc; reflexivity |].
           split; [simpl; now rewrite Hlen |].
           intros [| j] dp Hdp; simpl in Hdp.
           ++ injection Hdp as <-. exists i, tfq. repeat split; simpl; try reflexivity.
              ** unfold getitem in Eg.
                 destruct (nth_error mt i) as [l |]; [| discriminate].
                 injection Eg as ->. now exists lit.
              ** exact Ev.
           ++ simpl. apply Hnth. exact Hdp.
        -- rewrite Hw. unfold query_events. simpl. apply log_all_log.
      * destruct IH as [[i' [Hin Hraise]] [m [Hm Hw]]]. split.
        -- exists i'. split; [simpl; now right | exact Hraise].
        -- exists (S m). split; [lia |]. rewrite Hw. unfold query_events. simpl.
           apply log_all_log.
Qed.

Lemma firstn_seq (n a len : nat) :
  firstn n (seq a len) = seq a (Nat.min n len).
Proof.
  revert a len; induction n as [| n IH]; intros a [| len]; simpl; try reflexivity.
  now rewrite IH.
Qed.

Lemma nth_error_seq_Some (a len j i : nat) :
  nth_error (seq a len) j = Some i -> i = (a + j)%nat /\ (j < len)%nat.
Proof.
  rewrite nth_error_seq. destruct (Nat.ltb j len) eqn:E; [| discriminate].
  intros H; injection H as <-. apply Nat.ltb_lt in E. now split.
Qed.

Lemma getitem_in_range (l : list Lit) (i : nat) (e : PyExn) :
  (i < List.length l)%nat -> getitem l i <> Raise e.
Proof.
  intros Hi. unfold getitem. destruct (nth_error l i) eqn:E; [discriminate |].
  apply nth_error_None in E. lia.
Qed.

(** The answers the generation of an episode is measured against: those of
    the one solver built for it, asked every prefix in order. *)
Definition generation_queries (self : Actor) (sp : Problem) (mt : list Lit)
    : list TFQuery :=
  query_results (Z3Solver sp (z3opts self)) mt (seq 0 (List.length mt)).

(** The index at which generation stops: the first whose answer has no free
    variable, [len(min_trail)] when there is none. *)
Definition stop_index (self : Actor) (sp : Problem) (mt : list Lit) : nat :=
  leading_nonempty (generation_queries self sp mt).

Lemma stop_index_le (self : Actor) (sp : Problem) (mt : list Lit) :
  (stop_index self sp mt <= List.length mt)%nat.
Proof.
  unfold stop_index, generation_queries.
  pose proof (leading_nonempty_le
                (query_results (Z3Solver sp (z3opts self)) mt (seq 0 (List.length mt)))) as H.
  now rewrite query_results_length, length_seq in H.
Qed.

(** Lines 52 to 63 as a whole. *)
Lemma gen_datapoints_spec (self : Actor) (sp : Problem) (trail core : list Lit)
    (w : World) :
  let mt := min_trail_of trail core in
  let qs := generation_queries self sp mt in
  let k := stop_index self sp mt in
  match gen_datapoints self sp trail core w with
  | (Ok dps, w') =>
      List.length dps = k /\
      (forall j dp, nth_error dps j = Some dp ->
         exists q, nth_error qs j = Some q /\ example_for self sp mt j q dp) /\
      w' = log_all (query_events (n_solvers w) mt
                      (seq 0 (Nat.min (S k) (List.length mt))))
             (solver_built sp w)
  | (Raise e, w') =>
      (exists i, (i < k)%nat /\
         _compute_v (cfg self) (Z.of_nat (List.length mt) - Z.of_nat i) = Raise e) /\
      (exists m, (m <= k)%nat /\
         w' = log_all (query_events (n_solvers w) mt (seq 0 (Nat.min m (List.length mt))))
                (solver_built sp w))
  end.
Proof.
  intros mt qs k. unfold gen_datapoints. fold mt.
  unfold bind, _fresh_solver.
  pose proof (gen_loop_spec self sp mt (seq 0 (List.length mt))
                (n_solvers w, Z3Solver sp (z3opts self)) [] (solver_built sp w)) as H.
  cbv zeta in H. cbn [fst snd] in H.
  fold (generation_queries self sp mt) in H. fold qs in H.
  change (leading_nonempty qs) with k in H.
  pose proof (stop_index_le self sp mt) as Hk. fold k in Hk.
  destruct (gen_loop self sp mt _ _ _ _) as [[dps | e] w'].
  - destruct H as [[new [Hout [Hlen Hnth]]] Hw]. simpl in Hout. subst new.
    split; [exact Hlen |]. split.
    + intros j dp Hdp. destruct (Hnth j dp Hdp) as [i [q [Hi [Hq Hex]]]].
      apply nth_error_seq_Some in Hi. destruct Hi as [-> _]. now exists q.
    + now rewrite firstn_seq in Hw.
  - destruct H as [[i [Hin Hraise]] [m [Hm Hw]]]. split.
    + rewrite firstn_seq in Hin. apply in_seq in Hin.
      exists i. split; [lia |].
      destruct Hraise as [Hg | Hv]; [| exact Hv].
      exfalso. apply (getitem_in_range mt i e); [lia | exact Hg].
    + exists m. split; [exact Hm |]. now rewrite firstn_seq in Hw.
Qed.

(** *** The episode step *)

(** The outcome of the search of an episode entered in world [w]: it runs on
    a solver built for [sp], with the weights the server holds in [w]. *)
Definition outcome_of (self : Actor) (sp : Problem) (c : Cuber) (b : Brancher)
    (w : World) : option (list Lit * list Lit * Estimate) :=
  play_asat (Z3Solver sp (z3opts self)) c b (server_get_weights (server w)).

(** The calls of lines 44 and 45, in order. *)
Definition search_events (sp : Problem) (c : Cuber) (b : Brancher) (w : World)
    : list Event :=
  [E_get_weights; E_set_weights (server_get_weights (server w));
   E_Z3Solver (n_solvers w) sp; E_play_asat (n_solvers w) c b].

(** The world after lines 44 and 45. *)
Definition searched (sp : Problem) (c : Cuber) (b : Brancher) (w : World) : World :=
  {| neuroquery := server_get_weights (server w); server := server w;
     n_solvers := S (n_solvers w);
     trace := trace w ++ search_events sp c b w |}.

Lemma play_episode_eq (self : Actor) (d : string) (sp : Problem) (c : Cuber)
    (b : Brancher) (w : World) :
  play_episode self d sp c b w =
  match outcome_of self sp c b w with
  | None => (Ok tt, searched sp c b w)
  | Some (trail, core, est) =>
      match (if train self then gen_datapoints self sp trail core else ret [])
              (searched sp c b w) with
      | (Ok dps, w') =>
          process_actor_episode
            (d, cuber_name c, brancher_name b, est, dps) w'
      | (Raise e, w') => (Raise e, w')
      end
  end.
Proof.
  unfold play_episode, bind, get_weights, set_weights, _fresh_solver,
    run_play_asat, outcome_of. simpl.
  assert (Hw :
    log (E_play_asat (n_solvers w) c b)
      (solver_built sp
         {| neuroquery := server_get_weights (server w); server := server w;
            n_solvers := n_solvers w;
            trace := (trace w ++ [E_get_weights])
                     ++ [E_set_weights (server_get_weights (server w))] |})
    = searched sp c b w).
  { unfold log, solver_built, searched, search_events. simpl.
    now rewrite <- !app_assoc. }
  rewrite Hw.
  destruct (play_asat _ c b _) as [[[trail core] est] |]; reflexivity.
Qed.

Lemma count_app (p : Event -> bool) (l1 l2 : list Event) :
  count p (l1 ++ l2) = (count p l1 + count p l2)%nat.
Proof. unfold count. now rewrite filter_app, length_app. Qed.

Lemma count_query_events (p : Event -> bool) (id : nat) (mt : list Lit)
    (range : list nat) :
  (forall a, p (E_to_tf_query id a) = false) ->
  count p (query_events id mt range) = O.
Proof.
  intros Hp. unfold count, query_events.
  induction range as [| i range IH]; simpl; [reflexivity |].
  now rewrite Hp.
Qed.

Lemma count_is_query_events (id : nat) (mt : list Lit) (range : list nat) :
  count is_query (query_events id mt range) = List.length range.
Proof.
  unfold count, query_events.
  induction range as [| i range IH]; simpl; [reflexivity | now rewrite IH].
Qed.



(** What an episode adds to the trace, case by case. *)
Lemma play_episode_trace (self : Actor) (d : string) (sp : Problem) (c : Cuber)
    (b : Brancher) (w : World) :
  let r := play_episode self d sp c b w in
  let id := S (n_solvers w) in
  neuroquery (snd r) = server_get_weights (server w) /\
  match outcome_of self sp c b w with
  | None =>
      r = (Ok tt, searched sp c b w)
  | Some (trail, core, est) =>
      let mt := min_trail_of trail core in
      if train self then
        match gen_datapoints self sp trail core (searched sp c b w) with
        | (Ok dps, _) =>
            fst r = Ok tt /\
            server (snd r)
            = server_process_actor_episode (server w)
                (d, cuber_name c, brancher_name b, est, dps) /\
            trace (snd r)
            = trace w ++ search_events sp c b w
                ++ E_Z3Solver id sp
                   :: query_events id mt
                        (seq 0 (Nat.min (S (stop_index self sp mt)) (List.length mt)))
                ++ [E_process_actor_episode
                      (d, cuber_name c, brancher_name b, est, dps)]
        | (Raise e, _) =>
            fst r = Raise e /\
            server (snd r) = server w /\
            exists m, (m <= stop_index self sp mt)%nat /\
              trace (snd r)
              = trace w ++ search_events sp c b w
                  ++ E_Z3Solver id sp
                     :: query_events id mt (seq 0 (Nat.min m (List.length mt)))
        end
      else
        fst r = Ok tt /\
        server (snd r)
        = server_process_actor_episode (server w)
            (d, cuber_name c, brancher_name b, est, []) /\
        trace (snd r)
        = trace w ++ search_events sp c b w
            ++ [E_process_actor_episode
                  (d, cuber_name c, brancher_name b, est, [])]
  end.
Proof.
  intros r id. subst r. rewrite play_episode_eq.
  destruct (outcome_of self sp c b w) as [[[trail core] est] |].
  2:{ split; reflexivity. }
  destruct (train self).
  - pose proof (gen_datapoints_spec self sp trail core (searched sp c b w)) as H.
    cbv zeta in H.
    destruct (gen_datapoints self sp trail core (searched sp c b w))
      as [[dps | e] w'].
    + destruct H as [_ [_ Hw]]. subst w'. simpl.
      split; [reflexivity |]. split; [reflexivity |]. split; [reflexivity |].
      now rewrite <- !app_assoc.
    + destruct H as [_ [m [Hm Hw]]]. subst w'. simpl.
      split; [reflexivity |]. split; [reflexivity |]. split; [reflexivity |].
      exists m. split; [exact Hm |]. now rewrite <- !app_assoc.
  - simpl. split; [reflexivity |]. split; [reflexivity |]. split; [reflexivity |].
    now rewrite <- !app_assoc.
Qed.

(** *** The minimal trail *)

Lemma lit_in_true (l : Lit) (core : list Lit) : lit_in l core = true <-> In l core.
Proof.
  unfold lit_in. destruct (in_dec Lit_eq_dec l core); split; intros H;
    try reflexivity; try assumption; try discriminate; contradiction.
Qed.

Lemma filter_Subsequence {A : Type} (f : A -> bool) (l : list A) :
  Subsequence (filter f l) l.
Proof.
  induction l as [| x l IH]; simpl; [constructor |].
  destruct (f x); now constructor.
Qed.

Lemma Subsequence_length {A : Type} (l1 l2 : list A) :
  Subsequence l1 l2 -> (List.length l1 <= List.length l2)%nat.
Proof. induction 1; simpl; lia. Qed.

Lemma count_occ_min_trail (trail core : list Lit) (l : Lit) :
  count_occ Lit_eq_dec (min_trail_of trail core) l
  = if lit_in l core then count_occ Lit_eq_dec trail l else O.
Proof.
  unfold min_trail_of. induction trail as [| x trail IH]; simpl.
  - now destruct (lit_in l core).
  - destruct (lit_in x core) eqn:Ex; simpl.
    + destruct (Lit_eq_dec x l) as [-> | Hne].
      * rewrite IH, Ex. reflexivity.
      * exact IH.
    + destruct (Lit_eq_dec x l) as [-> | Hne].
      * rewrite IH, Ex. reflexivity.
      * exact IH.
Qed.


(** C2. For a core among the literals of the trail, the minimal trail
    [[lit for lit in trail if lit in core]] is a subsequence of the trail
    (it keeps the trail's order), is no longer than the trail, holds
    exactly the literals of the core, and holds each of them as often as
    the trail does. *)
Theorem min_trail_is_core_subsequence (trail core : list Lit) :
  incl core trail ->
  Subsequence (min_trail_of trail core) trail /\
  (List.length (min_trail_of trail core) <= List.length trail)%nat /\
  (forall l, In l (min_trail_of trail core) <-> In l core) /\
  (forall l, count_occ Lit_eq_dec (min_trail_of trail core) l
             = if lit_in l core then count_occ Lit_eq_dec trail l else O).
Proof.
  intros Hincl.
  assert (Hsub : Subsequence (min_trail_of trail core) trail)
    by apply filter_Subsequence.
  split; [exact Hsub |].
  split; [now apply Subsequence_length |].
  split; [| apply count_occ_min_trail].
  intros l. unfold min_trail_of. rewrite filter_In, lit_in_true.
  split; [now intros [_ H] | intros H; split; [now apply Hincl | exact H]].
Qed.

(** *** Generation *)



(** *** The loop *)








(** C6, as the code has it. Every episode step pulls the parameters from
    the server exactly once and loads them into the inference connection
    before the search runs. It pushes exactly one report when the search
    returned an outcome and the step returned normally, and none when the
    outcome is absent. *)
Theorem episode_pulls_once_pushes_on_outcome (self : Actor) (d : string)
    (sp : Problem) (c : Cuber) (b : Brancher) (w : World) :
  let r := play_episode self d sp c b w in
  exists new,
    trace (snd r)
    = trace w ++ [E_get_weights; E_set_weights (server_get_weights (server w));
                  E_Z3Solver (n_solvers w) sp; E_play_asat (n_solvers w) c b]
        ++ new /\
    neuroquery (snd r) = server_get_weights (server w) /\
    count is_pull (search_events sp c b w ++ new) = 1%nat /\
    count is_push (search_events sp c b w ++ new)
    = match outcome_of self sp c b w, fst r with
      | Some _, Ok _ => 1%nat
      | _, _ => O
      end.
Proof.
  intros r.
  pose proof (play_episode_trace self d sp c b w) as H. cbv zeta in H.
  fold r in H. destruct H as [Hnq H].
  destruct (outcome_of self sp c b w) as [[[trail core] est] |].
  2:{ exists []. rewrite H. simpl. repeat split. }
  destruct (train self).
  - destruct (gen_datapoints self sp trail core (searched sp c b w))
      as [[dps | e] w'].
    + destruct H as [Hr [_ Ht]]. rewrite Hr.
      eexists. split; [exact Ht |]. split; [exact Hnq |].
      change (E_Z3Solver ?i sp :: ?l) with ([E_Z3Solver i sp] ++ l).
      rewrite !count_app, !count_query_events by reflexivity. split; reflexivity.
    + destruct H as [Hr [_ [m [_ Ht]]]]. rewrite Hr.
      eexists. split; [exact Ht |]. split; [exact Hnq |].
      change (E_Z3Solver ?i sp :: ?l) with ([E_Z3Solver i sp] ++ l).
      rewrite !count_app, !count_query_events by reflexivity. split; reflexivity.
  - destruct H as [Hr [_ Ht]]. rewrite Hr.
    eexists. split; [exact Ht |]. split; [exact Hnq |]. split; reflexivity.
Qed.

(** *** The reports of an episode and of the loop *)






(** *** The end-to-end scenario *)





(** *** Further properties of the episode step *)

(** X8. Outside training mode an episode with an outcome reports it
    with no example: it builds the one solver of the search, queries no
    solver, never evaluates the value target (so it returns normally on
    any configuration), and pushes one report with an empty example list. *)
Theorem not_training_reports_no_example (self : Actor) (d : string)
    (sp : Problem) (c : Cuber) (b : Brancher) (w : World)
    (trail core : list Lit) (est : Estimate) :
  train self = false ->
  outcome_of self sp c b w = Some (trail, core, est) ->
  let r := play_episode self d sp c b w in
  fst r = Ok tt /\
  trace (snd r)
  = trace w ++ search_events sp c b w
      ++ [E_process_actor_episode (d, cuber_name c, brancher_name b, est, [])] /\
  n_solvers (snd r) = S (n_solvers w) /\
  server (snd r)
  = server_process_actor_episode (server w)
      (d, cuber_name c, brancher_name b, est, []).
Proof.
  intros Htrain Hout r. subst r. rewrite play_episode_eq, Hout, Htrain. simpl.
  repeat split. now rewrite <- app_assoc.
Qed.



(** The first step of the generation loop on a minimal trail that is not
    empty. *)
Lemma gen_datapoints_first_step (self : Actor) (sp : Problem)
    (trail core : list Lit) (w : World) (lit : Lit) (rest : list Lit) :
  min_trail_of trail core = lit :: rest ->
  let q := to_tf_query (Z3Solver sp (z3opts self)) [] in
  let w1 := log (E_to_tf_query (n_solvers w) []) (solver_built sp w) in
  gen_datapoints self sp trail core w =
  if (List.length (fvars (fst q)) =? 0)%nat then (Ok [], w1)
  else
    match _compute_v (cfg self) (Z.of_nat (S (List.length rest)) - 0) with
    | Raise e => (Raise e, w1)
    | Ok v =>
        gen_loop self sp (lit :: rest) (n_solvers w, snd q)
          (seq 1 (List.length rest))
          [mkDatapoint (n_vars sp) (n_clauses sp) (LC_idxs (fst q)) (var_idx lit) v]
          w1
    end.
Proof.
  intros Hmt q w1. unfold gen_datapoints. rewrite Hmt.
  cbn [List.length seq gen_loop]. unfold bind at 1. unfold _fresh_solver.
  unfold bind at 1. unfold call_to_tf_query. cbn [fst snd firstn].
  fold q. destruct q as [tfq st] eqn:Eq. cbn [fst snd].
  fold w1.
  destruct (List.length (fvars tfq) =? 0)%nat; [reflexivity |].
  unfold bind at 1. unfold lift at 1. cbn [getitem nth_error].
  unfold bind at 1. unfold lift at 1. cbn [Z.of_nat].
  destruct (_compute_v (cfg self) _) as [v | e]; reflexivity.
Qed.

(** X11. A decay scale of 0 is not caught when the actor starts: it
    raises [ZeroDivisionError] at the first example an episode computes.
    That episode has built its solver and made its first query, pushes no
    report and leaves the server as it was, and the exception ends the
    loop: no later triple is played. *)
Theorem zero_decay_scale_raises_before_report (self : Actor) (d : string)
    (sp : Problem) (c : Cuber) (b : Brancher) (w : World)
    (trail core : list Lit) (est : Estimate)
    (rest : list (string * Problem * Cuber * Brancher)) :
  v_reward_decay_steps (cfg self) = 0%R ->
  train self = true ->
  outcome_of self sp c b w = Some (trail, core, est) ->
  min_trail_of trail core <> [] ->
  fvars (fst (to_tf_query (Z3Solver sp (z3opts self)) [])) <> [] ->
  let r := play_episode self d sp c b w in
  fst r = Raise ZeroDivisionError /\
  trace (snd r)
  = trace w ++ search_events sp c b w
      ++ [E_Z3Solver (S (n_solvers w)) sp; E_to_tf_query (S (n_solvers w)) []] /\
  server (snd r) = server w /\
  for_each ((d, sp, c, b) :: rest) (play_triple self) w
  = (Raise ZeroDivisionError, snd r).
Proof.
  intros Hzero Htrain Hout Hmt Hfv r.
  assert (Hrun : r = (Raise ZeroDivisionError,
                      log (E_to_tf_query (S (n_solvers w)) [])
                        (solver_built sp (searched sp c b w)))).
  { subst r. rewrite play_episode_eq, Hout, Htrain.
    destruct (min_trail_of trail core) as [| lit mt'] eqn:Emt; [contradiction |].
    rewrite (gen_datapoints_first_step self sp trail core _ lit mt' Emt).
    cbv zeta.
    destruct (List.length (fvars (fst (to_tf_query (Z3Solver sp (z3opts self)) []))) =? 0)%nat
      eqn:E.
    { apply Nat.eqb_eq, length_zero_iff_nil in E. contradiction. }
    rewrite (compute_v_zero_scale _ _ Hzero). reflexivity. }
  split; [now rewrite Hrun |].
  split; [rewrite Hrun; simpl; now rewrite <- !app_assoc |].
  split; [now rewrite Hrun |].
  cbn [for_each]. unfold bind. cbn [play_triple]. fold r. rewrite Hrun. reflexivity.
Qed.

(** X12. An episode whose minimal trail is empty (no literal of the trail
    is in the core), or whose first query has no free variable, computes
    no value target: in training mode it still returns normally, on any
    configuration, and pushes one report with an empty example list. *)
Theorem no_example_episode_still_reports (self : Actor) (d : string)
    (sp : Problem) (c : Cuber) (b : Brancher) (w : World)
    (trail core : list Lit) (est : Estimate) :
  train self = true ->
  outcome_of self sp c b w = Some (trail, core, est) ->
  min_trail_of trail core = [] \/
  fvars (fst (to_tf_query (Z3Solver sp (z3opts self)) [])) = [] ->
  let r := play_episode self d sp c b w in
  fst r = Ok tt /\
  exists tl,
    trace (snd r) = trace w ++ tl /\
    reports tl = [(d, cuber_name c, brancher_name b, est, [])] /\
    server (snd r)
    = server_process_actor_episode (server w)
        (d, cuber_name c, brancher_name b, est, []).
Proof.
  intros Htrain Hout Hcase r. subst r. rewrite play_episode_eq, Hout, Htrain.
  destruct (min_trail_of trail core) as [| lit mt'] eqn:Emt.
  - unfold gen_datapoints. rewrite Emt. simpl.
    split; [reflexivity |].
    exists (search_events sp c b w
            ++ [E_Z3Solver (S (n_solvers w)) sp;
                E_process_actor_episode (d, cuber_name c, brancher_name b, est, [])]).
    split; [now rewrite <- !app_assoc |]. split; reflexivity.
  - destruct Hcase as [Hnil | Hfv]; [discriminate |].
    rewrite (gen_datapoints_first_step self sp trail core _ lit mt' Emt).
    cbv zeta. rewrite Hfv. simpl.
    split; [reflexivity |].
    exists (search_events sp c b w
            ++ [E_Z3Solver (S (n_solvers w)) sp; E_to_tf_query (S (n_solvers w)) [];
                E_process_actor_episode (d, cuber_name c, brancher_name b, est, [])]).
    split; [now rewrite <- !app_assoc |]. split; reflexivity.
Qed.

(** *** Accounting over the loop *)













(** X14. An episode never asks the solver the search ran on for an
    example: the search runs on the solver built first, every
    [to_tf_query] goes to a second solver built after the search, and an
    episode builds two solvers when it trains on an outcome and one
    otherwise. *)
Theorem episode_solver_objects (self : Actor) (d : string) (sp : Problem)
    (c : Cuber) (b : Brancher) (w : World) :
  let r := play_episode self d sp c b w in
  exists tl,
    trace (snd r) = trace w ++ tl /\
    n_solvers (snd r)
    = (n_solvers w
       + match outcome_of self sp c b w with
         | Some _ => if train self then 2 else 1
         | None => 1
         end)%nat /\
    (forall id c' b', In (E_play_asat id c' b') tl -> id = n_solvers w) /\
    (forall id a, In (E_to_tf_query id a) tl -> id = S (n_solvers w)).
Proof.
  intros r. subst r. rewrite play_episode_eq.
  assert (Hq : forall id0 id a mt range,
             In (E_to_tf_query id a) (query_events id0 mt range) -> id = id0).
  { intros id0 id a mt range Hin. unfold query_events in Hin.
    apply in_map_iff in Hin. destruct Hin as [i [Heq _]]. congruence. }
  assert (Hp : forall id0 id c' b' mt range,
             ~ In (E_play_asat id c' b') (query_events id0 mt range)).
  { intros id0 id c' b' mt range Hin. unfold query_events in Hin.
    apply in_map_iff in Hin. destruct Hin as [i [Heq _]]. discriminate. }
  destruct (outcome_of self sp c b w) as [[[trail core] est] |].
  2:{ exists (search_events sp c b w). cbn [fst snd searched trace n_solvers].
      split; [reflexivity |]. split; [lia |]. split.
      - intros id c' b' Hin. simpl in Hin.
        repeat (destruct Hin as [Hin | Hin]; try discriminate); [congruence | contradiction].
      - intros id a Hin. simpl in Hin.
        repeat (destruct Hin as [Hin | Hin]; try discriminate); contradiction. }
  destruct (train self).
  - pose proof (gen_datapoints_spec self sp trail core (searched sp c b w)) as G.
    cbv zeta in G.
    destruct (gen_datapoints self sp trail core (searched sp c b w))
      as [[dps | e] w'].
    + destruct G as [_ [_ Hw]]. subst w'.
      eexists. cbn [process_actor_episode fst snd log_all solver_built searched
                    trace n_solvers].
      split; [rewrite <- !app_assoc; reflexivity |]. split; [lia |]. split.
      * intros id c' b' Hin. apply in_app_or in Hin. destruct Hin as [Hin | Hin].
        -- simpl in Hin.
           repeat (destruct Hin as [Hin | Hin]; try discriminate);
             [congruence | contradiction].
        -- apply in_app_or in Hin. destruct Hin as [Hin | Hin].
           ++ simpl in Hin. destruct Hin as [Hin | []]. discriminate.
           ++ apply in_app_or in Hin. destruct Hin as [Hin | Hin].
              ** exfalso. now apply Hp in Hin.
              ** simpl in Hin. destruct Hin as [Hin | []]. discriminate.
      * intros id a Hin. apply in_app_or in Hin. destruct Hin as [Hin | Hin].
        -- simpl in Hin.
           repeat (destruct Hin as [Hin | Hin]; try discriminate); contradiction.
        -- apply in_app_or in Hin. destruct Hin as [Hin | Hin].
           ++ simpl in Hin. destruct Hin as [Hin | []]. discriminate.
           ++ apply in_app_or in Hin. destruct Hin as [Hin | Hin].
              ** now apply Hq in Hin.
              ** simpl in Hin. destruct Hin as [Hin | []]. discriminate.
    + destruct G as [_ [m [_ Hw]]]. subst w'.
      eexists. cbn [fst snd log_all solver_built searched trace n_solvers].
      split; [rewrite <- !app_assoc; reflexivity |]. split; [lia |]. split.
      * intros id c' b' Hin. apply in_app_or in Hin. destruct Hin as [Hin | Hin].
        -- simpl in Hin.
           repeat (destruct Hin as [Hin | Hin]; try discriminate);
             [congruence | contradiction].
        -- apply in_app_or in Hin. destruct Hin as [Hin | Hin].
           ++ simpl in Hin. destruct Hin as [Hin | []]. discriminate.
           ++ exfalso. now apply Hp in Hin.
      * intros id a Hin. apply in_app_or in Hin. destruct Hin as [Hin | Hin].
        -- simpl in Hin.
           repeat (destruct Hin as [Hin | Hin]; try discriminate); contradiction.
        -- apply in_app_or in Hin. destruct Hin as [Hin | Hin].
           ++ simpl in Hin. destruct Hin as [Hin | []]. discriminate.
           ++ now apply Hq in Hin.
  - eexists. cbn [ret process_actor_episode fst snd searched trace n_solvers].
    split; [rewrite <- !app_assoc; reflexivity |]. split; [lia |]. split.
    + intros id c' b' Hin. apply in_app_or in Hin. destruct Hin as [Hin | Hin].
      * simpl in Hin.
        repeat (destruct Hin as [Hin | Hin]; try discriminate);
          [congruence | contradiction].
      * simpl in Hin. destruct Hin as [Hin | []]. discriminate.
    + intros id a Hin. apply in_app_or in Hin. destruct Hin as [Hin | Hin].
      * simpl in Hin.
        repeat (destruct Hin as [Hin | Hin]; try discriminate); contradiction.
      * simpl in Hin. destruct Hin as [Hin | []]. discriminate.
Qed.

End Collaborators.

End Episode.

(** ** A concrete corpus, solver and server *)

Module Toy.

Import Value Episode.

Local Open Scope Z_scope.
Local Open Scope string_scope.

(** Literals are signed, nonzero integers as DIMACS writes them. *)
Definition Lit : Type := Z.
Definition var_idx (l : Lit) : Z := Z.abs l - 1.

(** An instance, reduced to what the actor asks of it. *)
Definition Problem : Type := (Z * Z)%type.
Definition n_vars (sp : Problem) : Z := fst sp.
Definition n_clauses (sp : Problem) : Z := snd sp.

(** A solver over three variables that counts the queries it has
    answered; the free variables are those no assumption mentions. *)
Definition Solver : Type := nat.
Definition Z3Solver (sp : Problem) (opts : Z3Options) : Solver := O.
Definition to_tf_query (st : Solver) (assumptions : list Lit) : TFQuery * Solver :=
  ({| fvars :=
        filter (fun v => negb (existsb (fun l => Z.eqb (var_idx l) v) assumptions))
          [0; 1; 2];
      LC_idxs := [(Z.of_nat st, 0)] |},
   S st).

Definition Cuber : Type := string.
Definition Brancher : Type := string.
Definition Weights : Type := nat.
Definition Estimate : Type := Z.
Definition Report : Type :=
  (string * string * string * Estimate * list NeuroSATDatapoint)%type.
Definition ServerState : Type := list Report.

(** The search fails under the cuber named [none], and otherwise closes
    with a trail of three literals and a core of two of them. *)
Definition play_asat (st : Solver) (c : Cuber) (b : Brancher) (ws : Weights)
    : option (list Lit * list Lit * Estimate) :=
  if String.eqb c "none" then None else Some ([1; -2; 3], [1; 3], 42).

Definition name_of (p : string) : string := p.
Definition server_get_weights (srv : ServerState) : Weights := List.length srv.
Definition server_process_actor_episode (srv : ServerState) (r : Report)
    : ServerState := (srv ++ [r])%list.
Definition server_get_config (srv : ServerState) : Config :=
  mkConfig 1 (1 / 2) 1.
Definition parse_dimacs (path : string) : Problem := (3, 2).

(** Two files named [x.cnf], in the directories [a] and [b]. *)
Definition tree : Corpus.DirTree :=
  Corpus.Dir [] [("a", Corpus.Dir ["x.cnf"] []); ("b", Corpus.Dir ["x.cnf"] [])].

Definition role (count : Z) : Launch.ActorInfo string :=
  Launch.mkActorInfo string count true "corpus" (Launch.mkSolverInfo 100 10)
    ["neuro"; "none"] ["brancher"].

Definition self : Actor Problem Cuber Brancher :=
  __init__ Problem Cuber Brancher ServerState server_get_config parse_dimacs
    string name_of name_of [] (role 3) tree.

Definition w0
    : World Lit Problem Cuber Brancher Weights Estimate ServerState :=
  mkWorld Lit Problem Cuber Brancher Weights Estimate ServerState O [] O [].

(** The episode step, the generation and the loop on these collaborators. *)
Definition play_episode :=
  Episode.play_episode Lit Problem Solver Cuber Brancher Weights Estimate
    ServerState Z.eq_dec var_idx n_vars n_clauses Z3Solver to_tf_query
    play_asat name_of name_of server_get_weights server_process_actor_episode.

Definition gen_datapoints :=
  Episode.gen_datapoints Lit Problem Solver Cuber Brancher Weights Estimate
    ServerState Z.eq_dec var_idx n_vars n_clauses Z3Solver to_tf_query.

Definition outcome_of :=
  Episode.outcome_of Lit Problem Solver Cuber Brancher Weights Estimate
    ServerState Z3Solver play_asat server_get_weights.

Definition trace_of
    (w : World Lit Problem Cuber Brancher Weights Estimate ServerState)
    : list (Event Lit Problem Cuber Brancher Weights Estimate) :=
  trace Lit Problem Cuber Brancher Weights Estimate ServerState w.


Definition count_of
    (p : Event Lit Problem Cuber Brancher Weights Estimate -> bool)
    (tr : list (Event Lit Problem Cuber Brancher Weights Estimate)) : nat :=
  count Lit Problem Cuber Brancher Weights Estimate p tr.



Definition cfg0 : Config := mkConfig 1 (1 / 2) 1.



Definition roles325 : list (Launch.ActorInfo string) := [role 3; role 2; role 5].

Lemma get_actor_info_buckets_witness :
  Forall (fun a => 0 <= Launch.n a) roles325 /\
  Launch.get_actor_info string roles325 4 = Ok (role 2) /\
  Launch.get_actor_info string roles325 4 = Launch.lookup_spec string roles325 4.
Proof.
  assert (Hnn : Forall (fun a => 0 <= Launch.n a) roles325).
  { repeat constructor; simpl; lia. }
  split; [exact Hnn |].
  destruct (Launch.get_actor_info_buckets string roles325 4 Hnn)
    as [Hspec [_ [_ Htable]]].
  split; [| exact Hspec].
  destruct (Htable (role 3) (role 2) (role 5) eq_refl eq_refl eq_refl eq_refl)
    as [_ [H34 _]].
  apply H34. lia.
Defined.

Definition trail0 : list Lit := [1; -2; 3].
Definition core0 : list Lit := [1; 3].

Lemma min_trail_is_core_subsequence_witness :
  incl core0 trail0 /\
  Subsequence (min_trail_of Lit Z.eq_dec trail0 core0) trail0 /\
  (List.length (min_trail_of Lit Z.eq_dec trail0 core0) <= List.length trail0)%nat.
Proof.
  assert (Hincl : incl core0 trail0).
  { intros x Hx. unfold core0, trail0 in *. simpl in *. intuition. }
  split; [exact Hincl |].
  destruct (min_trail_is_core_subsequence Lit Z.eq_dec trail0 core0 Hincl)
    as [Hsub [Hlen _]].
  split; [exact Hsub | exact Hlen].
Defined.


Definition pulls
    (tr : list (Event Lit Problem Cuber Brancher Weights Estimate)) : nat :=
  count_of (is_pull Lit Problem Cuber Brancher Weights Estimate) tr.

Definition pushes
    (tr : list (Event Lit Problem Cuber Brancher Weights Estimate)) : nat :=
  count_of (is_push Lit Problem Cuber Brancher Weights Estimate) tr.

(** C6 as stated fails: the episode under the cuber [none] has no outcome;
    it pulls once and pushes nothing. *)
Lemma episode_without_outcome_pushes_nothing :
  ~ (pulls (trace_of (snd (play_episode self "x.cnf" (3, 2) "none" "brancher" w0)))
     = 1%nat /\
     pushes (trace_of (snd (play_episode self "x.cnf" (3, 2) "none" "brancher" w0)))
     = 1%nat).
Proof.
  unfold play_episode. rewrite play_episode_eq.
  change (Episode.outcome_of Lit Problem Solver Cuber Brancher Weights Estimate
            ServerState Z3Solver play_asat server_get_weights self
            (3, 2) "none" "brancher" w0) with
    (@None (list Lit * list Lit * Estimate)).
  intros [_ Hpush]. vm_compute in Hpush. discriminate.
Qed.







(** *** Further concrete runs *)

Definition launch_cfg : Launch.ActorCfg string :=
  Launch.mkActorCfg string roles325 4 (1 / 2).

Lemma launched_roles_repeat_counts_witness :
  Forall (fun a => 0 <= Launch.n a) (Launch.actors string launch_cfg) /\
  Launch.launched_roles string launch_cfg
  = (repeat (Ok (role 3)) 3 ++ repeat (Ok (role 2)) 2 ++ repeat (Ok (role 5)) 5)%list.
Proof.
  assert (Hnn : Forall (fun a => 0 <= Launch.n a) (Launch.actors string launch_cfg)).
  { repeat constructor; simpl; lia. }
  split; [exact Hnn |].
  rewrite (Launch.launched_roles_repeat_counts string launch_cfg Hnn).
  reflexivity.
Defined.

Lemma get_actor_info_answers_below_total_witness :
  Forall (fun a => 0 <= Launch.n a) roles325 /\
  Launch.get_actor_info string roles325 (-1) = Ok (role 3) /\
  Launch.get_actor_info string roles325 10 = Raise (Exception_no_actor_info 10).
Proof.
  assert (Hnn : Forall (fun a => 0 <= Launch.n a) roles325).
  { repeat constructor; simpl; lia. }
  split; [exact Hnn |]. split.
  - destruct (Launch.get_actor_info_answers_below_total string (role 3)
                [role 2; role 5] (-1) Hnn) as [_ [_ Hneg]].
    apply Hneg. lia.
  - destruct (Launch.get_actor_info_answers_below_total string (role 3)
                [role 2; role 5] 10 Hnn) as [_ [Hraise _]].
    apply Hraise. vm_compute. discriminate.
Defined.

Lemma load_sps_paths_under_dir_witness :
  Corpus.listing_names tree /\
  In ("x.cnf", (3, 2)) (Corpus.load_sps Problem parse_dimacs "corpus" tree) /\
  exists middle,
    (3, 2) = parse_dimacs ("corpus" ++ middle ++ "x.cnf") /\
    In "x.cnf" (Corpus.all_files tree).
Proof.
  assert (Hn : Corpus.listing_names tree).
  { simpl. repeat split; repeat constructor. }
  assert (Hin : In ("x.cnf", (3, 2))
                  (Corpus.load_sps Problem parse_dimacs "corpus" tree)).
  { simpl. auto. }
  split; [exact Hn |]. split; [exact Hin |].
  exact (Corpus.load_sps_paths_under_dir Problem parse_dimacs "corpus" tree
           "x.cnf" (3, 2) Hn Hin).
Defined.



(** The same actor outside training mode, and one whose decay scale is 0. *)
Definition self_eval : Actor Problem Cuber Brancher :=
  mkActor Problem Cuber Brancher cfg0 ["neuro"; "none"] ["brancher"]
    [("x.cnf", (3, 2))] false (mkZ3Options 100 10).

Definition self_zero_scale : Actor Problem Cuber Brancher :=
  mkActor Problem Cuber Brancher (mkConfig 1 (1 / 2) 0) ["neuro"; "none"]
    ["brancher"] [("x.cnf", (3, 2))] true (mkZ3Options 100 10).

(** A search that closes with a core that shares nothing with its trail. *)
Definition play_asat_disjoint (st : Solver) (c : Cuber) (b : Brancher)
    (ws : Weights) : option (list Lit * list Lit * Estimate) :=
  Some ([1; -2; 3], [2], 7).

Lemma not_training_reports_no_example_witness :
  train Problem Cuber Brancher self_eval = false /\
  outcome_of self_eval (3, 2) "neuro" "brancher" w0 = Some (trail0, core0, 42) /\
  fst (play_episode self_eval "x.cnf" (3, 2) "neuro" "brancher" w0) = Ok tt /\
  n_solvers Lit Problem Cuber Brancher Weights Estimate ServerState
    (snd (play_episode self_eval "x.cnf" (3, 2) "neuro" "brancher" w0)) = 1%nat.
Proof.
  split; [reflexivity |]. split; [reflexivity |].
  destruct (not_training_reports_no_example Lit Problem Solver Cuber Brancher
              Weights Estimate ServerState Z.eq_dec var_idx n_vars n_clauses
              Z3Solver to_tf_query play_asat name_of name_of server_get_weights
              server_process_actor_episode self_eval "x.cnf" (3, 2) "neuro"
              "brancher" w0 trail0 core0 42 eq_refl eq_refl)
    as [Hfst [_ [Hn _]]].
  split; [exact Hfst | exact Hn].
Defined.



Lemma zero_decay_scale_raises_before_report_witness :
  v_reward_decay_steps (cfg Problem Cuber Brancher self_zero_scale) = 0%R /\
  fst (play_episode self_zero_scale "x.cnf" (3, 2) "neuro" "brancher" w0)
  = Raise ZeroDivisionError /\
  Episode.server Lit Problem Cuber Brancher Weights Estimate ServerState
    (snd (play_episode self_zero_scale "x.cnf" (3, 2) "neuro" "brancher" w0)) = [].
Proof.
  split; [reflexivity |].
  assert (Hmt : min_trail_of Lit Z.eq_dec trail0 core0 <> []) by discriminate.
  assert (Hfv : fvars (fst (to_tf_query
                              (Z3Solver (3, 2)
                                 (z3opts Problem Cuber Brancher self_zero_scale)) []))
                <> []) by discriminate.
  destruct (zero_decay_scale_raises_before_report Lit Problem Solver Cuber
              Brancher Weights Estimate ServerState Z.eq_dec var_idx n_vars
              n_clauses Z3Solver to_tf_query play_asat name_of name_of
              server_get_weights server_process_actor_episode self_zero_scale
              "x.cnf" (3, 2) "neuro" "brancher" w0 trail0 core0 42 []
              eq_refl eq_refl eq_refl Hmt Hfv)
    as [Hfst [_ [Hsrv _]]].
  split; [exact Hfst | exact Hsrv].
Defined.

Lemma no_example_episode_still_reports_witness :
  min_trail_of Lit Z.eq_dec [1; -2; 3] [2] = [] /\
  fst (Episode.play_episode Lit Problem Solver Cuber Brancher Weights Estimate
         ServerState Z.eq_dec var_idx n_vars n_clauses Z3Solver to_tf_query
         play_asat_disjoint name_of name_of server_get_weights
         server_process_actor_episode self_zero_scale "x.cnf" (3, 2) "neuro"
         "brancher" w0)
  = Ok tt.
Proof.
  split; [reflexivity |].
  destruct (no_example_episode_still_reports Lit Problem Solver Cuber Brancher
              Weights Estimate ServerState Z.eq_dec var_idx n_vars n_clauses
              Z3Solver to_tf_query play_asat_disjoint name_of name_of
              server_get_weights server_process_actor_episode self_zero_scale
              "x.cnf" (3, 2) "neuro" "brancher" w0 [1; -2; 3] [2] 7
              eq_refl eq_refl (or_introl eq_refl))
    as [Hfst _].
  exact Hfst.
Defined.


End Toy.
